(** * aws/config.go: the service configuration record, its copy and its merge

    A shallow embedding of [package aws] (file [aws/config.go]) of the AWS SDK
    for Go.  Every field of [Config] is a Go pointer (or an interface value),
    so the embedding carries an explicit store: pointers are addresses into a
    finite map of cells, [nil] is [None], and the Go functions are
    computations over that store. *)

From stdpp Require Import base option gmap strings list.
From Stdlib Require Import ZArith.

Local Open Scope Z_scope.

(** ** The store *)

(** A Go pointer value that is not [nil]. *)
Abbreviation addr := positive (only parsing).

(** A non-nil Go interface value: the dynamic type and the data word, which
    for a pointer receiver type is itself a (possibly nil) pointer. *)
Record iface := Iface { itab : string; data : option addr }.

(** [type Config struct], lines 52-120.  [*T] is [option addr]; the one
    interface-typed field, [Logger io.Writer], is [option iface]. *)
Record Config := mkConfig {
  Credentials : option addr;            (* *credentials.Credentials *)
  Endpoint : option addr;               (* *string *)
  Region : option addr;                 (* *string *)
  DisableSSL : option addr;             (* *bool *)
  HTTPClient : option addr;             (* *http.Client *)
  LogHTTPBody : option addr;            (* *bool *)
  LogLevel : option addr;               (* *int *)
  Logger : option iface;                (* io.Writer *)
  MaxRetries : option addr;             (* *int *)
  DisableParamValidation : option addr; (* *bool *)
  DisableComputeChecksums : option addr;(* *bool *)
  S3ForcePathStyle : option addr        (* *bool *)
}.

(** What an address can hold: a boxed scalar, a [Config] struct, or an object
    of another package (a credentials chain, an HTTP client, an open file),
    of which only a type name and a log of what was sent to it are kept.
    [config.go] does no arithmetic on [int], so [int] is [Z]. *)
Inductive cell :=
  | CString (s : string)
  | CBool (b : bool)
  | CInt (n : Z)
  | CObject (kind : string) (sent : list string)
  | CConfig (c : Config).

(** The process: the heap, the environment variables, and the keys
    [os.Getenv] was asked for, latest first. *)
Record world := World {
  heap : gmap addr cell;
  environ : gmap string string;
  getenv_log : list string
}.

Definition with_heap (f : gmap addr cell → gmap addr cell) (w : world) : world :=
  {| heap := f (heap w); environ := environ w; getenv_log := getenv_log w |}.

(** ** Go computations: state passing, with [None] for a fault *)

Definition Go (A : Type) : Type := world → option (A * world).

Definition ret {A} (x : A) : Go A := λ w, Some (x, w).

Definition bind {A B} (m : Go A) (f : A → Go B) : Go B := λ w,
  match m w with
  | Some (x, w') => f x w'
  | None => None
  end.

Definition fault {A} : Go A := λ _, None.

Declare Scope go_scope.
Delimit Scope go_scope with go.
Bind Scope go_scope with Go.
Notation "x <- m ;; k" := (bind m (λ x, k))
  (at level 100, m at next level, right associativity) : go_scope.
Local Open Scope go_scope.

(** [&v], [new(T)]: a cell at an address not in use. *)
Definition alloc (v : cell) : Go addr := λ w,
  let a := fresh (dom (heap w)) in
  Some (a, with_heap (insert a v) w).

(** [*p]: a fault when nothing is allocated at [p]. *)
Definition load (p : addr) : Go cell := λ w,
  match heap w !! p with
  | Some v => Some (v, w)
  | None => None
  end.

(** [*p = v]: a fault when nothing is allocated at [p]. *)
Definition store (p : addr) (v : cell) : Go unit := λ w,
  match heap w !! p with
  | Some _ => Some (tt, with_heap (insert p v) w)
  | None => None
  end.

(** [*p] at type [Config]. *)
Definition load_config (p : addr) : Go Config :=
  v <- load p;;
  match v with
  | CConfig c => ret c
  | _ => fault
  end.

(** [os.Getenv(key)]: the value of the variable, or the empty string when it
    is not set; the call is recorded. *)
Definition Getenv (key : string) : Go string := λ w,
  Some (default EmptyString (environ w !! key),
        {| heap := heap w; environ := environ w; getenv_log := key :: getenv_log w |}).

(** ** Field assignment [cfg.F = v] on a struct value *)

Definition set_Credentials (v : option addr) (c : Config) : Config :=
  mkConfig v (Endpoint c) (Region c) (DisableSSL c) (HTTPClient c) (LogHTTPBody c)
    (LogLevel c) (Logger c) (MaxRetries c) (DisableParamValidation c)
    (DisableComputeChecksums c) (S3ForcePathStyle c).
Definition set_Endpoint (v : option addr) (c : Config) : Config :=
  mkConfig (Credentials c) v (Region c) (DisableSSL c) (HTTPClient c) (LogHTTPBody c)
    (LogLevel c) (Logger c) (MaxRetries c) (DisableParamValidation c)
    (DisableComputeChecksums c) (S3ForcePathStyle c).
Definition set_Region (v : option addr) (c : Config) : Config :=
  mkConfig (Credentials c) (Endpoint c) v (DisableSSL c) (HTTPClient c) (LogHTTPBody c)
    (LogLevel c) (Logger c) (MaxRetries c) (DisableParamValidation c)
    (DisableComputeChecksums c) (S3ForcePathStyle c).
Definition set_DisableSSL (v : option addr) (c : Config) : Config :=
  mkConfig (Credentials c) (Endpoint c) (Region c) v (HTTPClient c) (LogHTTPBody c)
    (LogLevel c) (Logger c) (MaxRetries c) (DisableParamValidation c)
    (DisableComputeChecksums c) (S3ForcePathStyle c).
Definition set_HTTPClient (v : option addr) (c : Config) : Config :=
  mkConfig (Credentials c) (Endpoint c) (Region c) (DisableSSL c) v (LogHTTPBody c)
    (LogLevel c) (Logger c) (MaxRetries c) (DisableParamValidation c)
    (DisableComputeChecksums c) (S3ForcePathStyle c).
Definition set_LogHTTPBody (v : option addr) (c : Config) : Config :=
  mkConfig (Credentials c) (Endpoint c) (Region c) (DisableSSL c) (HTTPClient c) v
    (LogLevel c) (Logger c) (MaxRetries c) (DisableParamValidation c)
    (DisableComputeChecksums c) (S3ForcePathStyle c).
Definition set_LogLevel (v : option addr) (c : Config) : Config :=
  mkConfig (Credentials c) (Endpoint c) (Region c) (DisableSSL c) (HTTPClient c)
    (LogHTTPBody c) v (Logger c) (MaxRetries c) (DisableParamValidation c)
    (DisableComputeChecksums c) (S3ForcePathStyle c).
Definition set_Logger (v : option iface) (c : Config) : Config :=
  mkConfig (Credentials c) (Endpoint c) (Region c) (DisableSSL c) (HTTPClient c)
    (LogHTTPBody c) (LogLevel c) v (MaxRetries c) (DisableParamValidation c)
    (DisableComputeChecksums c) (S3ForcePathStyle c).
Definition set_MaxRetries (v : option addr) (c : Config) : Config :=
  mkConfig (Credentials c) (Endpoint c) (Region c) (DisableSSL c) (HTTPClient c)
    (LogHTTPBody c) (LogLevel c) (Logger c) v (DisableParamValidation c)
    (DisableComputeChecksums c) (S3ForcePathStyle c).
Definition set_DisableParamValidation (v : option addr) (c : Config) : Config :=
  mkConfig (Credentials c) (Endpoint c) (Region c) (DisableSSL c) (HTTPClient c)
    (LogHTTPBody c) (LogLevel c) (Logger c) (MaxRetries c) v
    (DisableComputeChecksums c) (S3ForcePathStyle c).
Definition set_DisableComputeChecksums (v : option addr) (c : Config) : Config :=
  mkConfig (Credentials c) (Endpoint c) (Region c) (DisableSSL c) (HTTPClient c)
    (LogHTTPBody c) (LogLevel c) (Logger c) (MaxRetries c) (DisableParamValidation c)
    v (S3ForcePathStyle c).
Definition set_S3ForcePathStyle (v : option addr) (c : Config) : Config :=
  mkConfig (Credentials c) (Endpoint c) (Region c) (DisableSSL c) (HTTPClient c)
    (LogHTTPBody c) (LogLevel c) (Logger c) (MaxRetries c) (DisableParamValidation c)
    (DisableComputeChecksums c) v.

(** ** [package aws] *)

Module aws.

(** Modelled from the spec: the helpers [aws.String], [aws.Bool] and [aws.Int]
    are called by [DefaultConfig] but defined in another file of the package.
    The spec has every scalar field boxed behind an optional wrapper, present
    even when the value is falsy; so each helper boxes its argument in a cell
    of its own and returns the non-nil pointer to it. *)
Definition String (v : string) : Go (option addr) := p <- alloc (CString v);; ret (Some p).
Definition Bool (v : bool) : Go (option addr) := p <- alloc (CBool v);; ret (Some p).
Definition Int (v : Z) : Go (option addr) := p <- alloc (CInt v);; ret (Some p).

(** [const DefaultRetries = -1], line 26. *)
Definition DefaultRetries : Z := -1.

(** [func (c Config) Copy() Config], lines 123-126.  Receiver and result are
    struct values: no cell is read, written or allocated. *)
Definition Copy (c : Config) : Go Config :=
  let dst := c in
  ret dst.

(** Lines 139-185 of [Merge]: the twelve guarded assignments to [cfg], with
    [n] the struct [newcfg] points to. *)
Definition Merge_assign (n cfg : Config) : Config :=
  let cfg := if Credentials n is Some _ then set_Credentials (Credentials n) cfg else cfg in
  let cfg := if Endpoint n is Some _ then set_Endpoint (Endpoint n) cfg else cfg in
  let cfg := if Region n is Some _ then set_Region (Region n) cfg else cfg in
  let cfg := if DisableSSL n is Some _ then set_DisableSSL (DisableSSL n) cfg else cfg in
  let cfg := if HTTPClient n is Some _ then set_HTTPClient (HTTPClient n) cfg else cfg in
  let cfg := if LogHTTPBody n is Some _ then set_LogHTTPBody (LogHTTPBody n) cfg else cfg in
  let cfg := if LogLevel n is Some _ then set_LogLevel (LogLevel n) cfg else cfg in
  let cfg := if Logger n is Some _ then set_Logger (Logger n) cfg else cfg in
  let cfg := if MaxRetries n is Some _ then set_MaxRetries (MaxRetries n) cfg else cfg in
  let cfg := if DisableParamValidation n is Some _
             then set_DisableParamValidation (DisableParamValidation n) cfg else cfg in
  let cfg := if DisableComputeChecksums n is Some _
             then set_DisableComputeChecksums (DisableComputeChecksums n) cfg else cfg in
  let cfg := if S3ForcePathStyle n is Some _
             then set_S3ForcePathStyle (S3ForcePathStyle n) cfg else cfg in
  cfg.

(** [func (c Config) Merge(newcfg *Config) *Config], lines 133-188.  The
    receiver is a struct value; [newcfg] is a pointer, [None] for [nil];
    [&cfg] makes the local escape to a new cell. *)
Definition Merge (c : Config) (newcfg : option addr) : Go addr :=
  let cfg := c in
  match newcfg with
  | None => alloc (CConfig cfg)
  | Some p =>
      n <- load_config p;;
      alloc (CConfig (Merge_assign n cfg))
  end.

(** [var DefaultConfig = &Config{...}], lines 35-48.  The three handles come
    from other packages and exist before this initialiser runs; the calls in
    the literal run in source order, then the struct is allocated. *)
Section Globals.
Variable DefaultChainCredentials : option addr. (* line 17 *)
Variable http_DefaultClient : option addr.      (* http.DefaultClient *)
Variable os_Stdout : option addr.               (* os.Stdout, a *os.File *)

Definition DefaultConfig : Go addr :=
  endpoint <- String EmptyString;;
  aws_region <- Getenv "AWS_REGION";;
  region <- String aws_region;;
  disableSSL <- Bool false;;
  logHTTPBody <- Bool false;;
  logLevel <- Int 0;;
  maxRetries <- Int DefaultRetries;;
  disableParamValidation <- Bool false;;
  disableComputeChecksums <- Bool false;;
  s3ForcePathStyle <- Bool false;;
  alloc (CConfig {|
    Credentials := DefaultChainCredentials;
    Endpoint := endpoint;
    Region := region;
    DisableSSL := disableSSL;
    HTTPClient := http_DefaultClient;
    LogHTTPBody := logHTTPBody;
    LogLevel := logLevel;
    Logger := Some (Iface "*os.File" os_Stdout);
    MaxRetries := maxRetries;
    DisableParamValidation := disableParamValidation;
    DisableComputeChecksums := disableComputeChecksums;
    S3ForcePathStyle := s3ForcePathStyle
  |}).
End Globals.

End aws.

Import aws.

(** ** Reading a configuration field by field *)

(** The twelve fields of [Config], in declaration order. *)
Inductive field :=
  | FCredentials | FEndpoint | FRegion | FDisableSSL | FHTTPClient | FLogHTTPBody
  | FLogLevel | FLogger | FMaxRetries | FDisableParamValidation
  | FDisableComputeChecksums | FS3ForcePathStyle.

#[global] Instance field_eq_dec : EqDecision field.
Proof. solve_decision. Defined.

(** The scalar fields are the boxed strings, booleans and integers; the
    handles are [Credentials], [HTTPClient] and [Logger]. *)
Definition is_handle (f : field) : bool :=
  match f with
  | FCredentials | FHTTPClient | FLogger => true
  | _ => false
  end.

(** A field value that is not [nil]. *)
Inductive ref :=
  | RPtr (a : addr)
  | RIface (i : iface).

(** [get f c] is the field [f] of [c]: [None] when it is [nil] (absent). *)
Definition get (f : field) (c : Config) : option ref :=
  match f with
  | FCredentials => RPtr <$> Credentials c
  | FEndpoint => RPtr <$> Endpoint c
  | FRegion => RPtr <$> Region c
  | FDisableSSL => RPtr <$> DisableSSL c
  | FHTTPClient => RPtr <$> HTTPClient c
  | FLogHTTPBody => RPtr <$> LogHTTPBody c
  | FLogLevel => RPtr <$> LogLevel c
  | FLogger => RIface <$> Logger c
  | FMaxRetries => RPtr <$> MaxRetries c
  | FDisableParamValidation => RPtr <$> DisableParamValidation c
  | FDisableComputeChecksums => RPtr <$> DisableComputeChecksums c
  | FS3ForcePathStyle => RPtr <$> S3ForcePathStyle c
  end.

(** The address a field value leads to, if any. *)
Definition target (r : ref) : option addr :=
  match r with
  | RPtr a => Some a
  | RIface i => data i
  end.

(** What a field holds, seen through the pointer: [None] when the field is
    absent (or leads nowhere). *)
Definition deref (w : world) (s : option ref) : option cell :=
  a ← s ≫= target; heap w !! a.

(** What a pointer field holds. *)
Definition box (w : world) (p : option addr) : option cell :=
  a ← p; heap w !! a.

(** Go has no dangling pointers: a field value leads to an allocated cell. *)
Definition allocated (w : world) (s : option ref) : bool :=
  match s ≫= target with
  | Some a => bool_decide (is_Some (heap w !! a))
  | None => true
  end.

(** The [newcfg] argument of [Merge] is [nil] or points to a [Config]. *)
Definition override_ok (w : world) (newcfg : option addr) : bool :=
  match newcfg with
  | None => true
  | Some p => if heap w !! p is Some (CConfig _) then true else false
  end.

(** Field [f] of the override, an absent override having no field present. *)
Definition override_field (w : world) (newcfg : option addr) (f : field) : option ref :=
  p ← newcfg;
  v ← heap w !! p;
  if v is CConfig n then get f n else None.

(** The zero values of the scalar types. *)
Definition falsy (v : cell) : bool :=
  match v with
  | CBool false => true
  | CInt 0 => true
  | CString EmptyString => true
  | _ => false
  end.

(** What can be told of a field from outside: absent, or present with what
    it leads to. *)
Definition observe (w : world) (s : option ref) : option (option cell) :=
  (λ r, a ← target r; heap w !! a) <$> s.

(** ** Client code *)

(** [c.Merge(newcfg).Merge(newcfg)]: the second call copies its receiver out
    of the struct the first call returned. *)
Definition Merge_again (c : Config) (newcfg : option addr) : Go addr :=
  q <- Merge c newcfg;;
  r <- load_config q;;
  Merge r newcfg.

(** [*c.F = v]: a write through field [f] of [c], a fault when it is [nil]. *)
Definition write_through (c : Config) (f : field) (v : cell) : Go unit :=
  match get f c ≫= target with
  | Some a => store a v
  | None => fault
  end.

(** [p.F = v] for [p *Config], with [set] the assignment on the struct. *)
Definition assign_field (p : addr) (set : Config → Config) : Go unit :=
  c <- load_config p;;
  store p (CConfig (set c)).

(** ** A concrete process *)

(** A base and an override in one heap: the base has credentials, region
    [us-east-1], [DisableSSL] true, log level 2 and a logger; the override
    sets [DisableSSL] to false, the log level to 0, the endpoint to the empty
    string and the retry ceiling to 3, and leaves the rest absent. *)
Definition base0 : Config :=
  {| Credentials := Some 1%positive; Endpoint := None; Region := Some 2%positive;
     DisableSSL := Some 3%positive; HTTPClient := None; LogHTTPBody := None;
     LogLevel := Some 4%positive;
     Logger := Some (Iface "*os.File" (Some 5%positive));
     MaxRetries := None; DisableParamValidation := None;
     DisableComputeChecksums := None; S3ForcePathStyle := None |}.

Definition override0 : Config :=
  {| Credentials := None; Endpoint := Some 9%positive; Region := None;
     DisableSSL := Some 6%positive; HTTPClient := None; LogHTTPBody := None;
     LogLevel := Some 8%positive; Logger := None;
     MaxRetries := Some 7%positive; DisableParamValidation := None;
     DisableComputeChecksums := None; S3ForcePathStyle := None |}.

Definition heap0 : gmap addr cell :=
  list_to_map
    [(1%positive, CObject "credentials.Credentials" []);
     (2%positive, CString "us-east-1");
     (3%positive, CBool true);
     (4%positive, CInt 2);
     (5%positive, CObject "os.File" []);
     (6%positive, CBool false);
     (7%positive, CInt 3);
     (8%positive, CInt 0);
     (9%positive, CString EmptyString);
     (10%positive, CConfig override0);
     (11%positive, CConfig base0)].

Definition world0 : world := World heap0 ∅ [].

(** The same process after [*dup.Region = "eu-west-1"]. *)
Definition world0_region_written : world :=
  with_heap (insert 2%positive (CString "eu-west-1")) world0.

(** A second base: as [base0], but for another region, no credentials and
    no logger. *)
Definition base1 : Config :=
  set_Logger None (set_Credentials None (set_Region (Some 9%positive) base0)).

(** ** More client code *)

(** [Config{}]: the zero value of the struct, every field [nil]. *)
Definition Config_zero : Config :=
  mkConfig None None None None None None None None None None None None.

(** [c.Merge(o1).Merge(o2)]: two overrides layered one after the other. *)
Definition Merge_then (c : Config) (o1 o2 : option addr) : Go addr :=
  q <- Merge c o1;;
  r <- load_config q;;
  Merge r o2.

(** [c.Merge(o1.Merge(o2))] for [o1] not nil: the overrides are merged with
    each other first; the receiver of the inner call is copied out of [*o1]. *)
Definition Merge_into (c : Config) (p1 : addr) (o2 : option addr) : Go addr :=
  n1 <- load_config p1;;
  p12 <- Merge n1 o2;;
  Merge c (Some p12).

(** ** Typing of the store *)

Definition all_fields : list field :=
  [FCredentials; FEndpoint; FRegion; FDisableSSL; FHTTPClient; FLogHTTPBody;
   FLogLevel; FLogger; FMaxRetries; FDisableParamValidation;
   FDisableComputeChecksums; FS3ForcePathStyle].

(** The cell a field of the given name may lead to, by the field's Go type
    (lines 55-119): [*string], [*bool], [*int], or an object of another
    package. *)
Definition cell_fits (f : field) (v : cell) : bool :=
  match f with
  | FEndpoint | FRegion => if v is CString _ then true else false
  | FDisableSSL | FLogHTTPBody | FDisableParamValidation
  | FDisableComputeChecksums | FS3ForcePathStyle => if v is CBool _ then true else false
  | FLogLevel | FMaxRetries => if v is CInt _ then true else false
  | FCredentials | FHTTPClient | FLogger => if v is CObject _ _ then true else false
  end.

(** Field [f] with value [s] is nil, or leads to an allocated cell of the
    field's type. *)
Definition well_typed_field (w : world) (f : field) (s : option ref) : bool :=
  match s ≫= target with
  | Some a => if heap w !! a is Some v then cell_fits f v else false
  | None => true
  end.

Definition well_typed (w : world) (c : Config) : bool :=
  forallb (λ f, well_typed_field w f (get f c)) all_fields.

(** The override is nil, or points to a struct that is well typed. *)
Definition override_typed (w : world) (newcfg : option addr) : bool :=
  match newcfg with
  | None => true
  | Some p => if heap w !! p is Some (CConfig n) then well_typed w n else false
  end.

(** Every scalar field is present. *)
Definition populated (c : Config) : bool :=
  forallb (λ f, if get f c is Some _ then true else is_handle f) all_fields.

(** No field is present in both structs. *)
Definition disjoint_fields (n1 n2 : Config) : bool :=
  forallb (λ f, if get f n1 is Some _ then (if get f n2 is Some _ then false else true)
                else true) all_fields.

(** ** A second concrete process *)

(** A second override, setting the region and body logging only. *)
Definition override1 : Config :=
  set_LogHTTPBody (Some 3%positive) (set_Region (Some 14%positive) Config_zero).

(** [heap0] with the second override, a region box for it, and a zero
    struct. *)
Definition heap1 : gmap addr cell :=
  <[12%positive := CConfig override1]>
    (<[13%positive := CConfig Config_zero]>
       (<[14%positive := CString "eu-west-1"]> heap0)).

Definition world1 : world := World heap1 ∅ [].

(** ** The store under allocation *)

Lemma fresh_unused (h : gmap addr cell) : h !! fresh (dom h) = None.
Proof. apply not_elem_of_dom, is_fresh. Qed.

Lemma lookup_alloc_new (h : gmap addr cell) v :
  <[fresh (dom h) := v]> h !! fresh (dom h) = Some v.
Proof. apply lookup_insert_eq. Qed.

Lemma lookup_alloc_old (h : gmap addr cell) v a x :
  h !! a = Some x → <[fresh (dom h) := v]> h !! a = Some x.
Proof.
  intros Ha. rewrite lookup_insert_ne; [done|].
  intros <-. by rewrite fresh_unused in Ha.
Qed.

Lemma deref_alloc w v s :
  allocated w s = true →
  deref (with_heap (insert (fresh (dom (heap w))) v) w) s = deref w s.
Proof.
  unfold allocated, deref. destruct (s ≫= target) as [a|]; simpl; [|done].
  intros [x Hx]%bool_decide_eq_true. by rewrite (lookup_alloc_old _ v a x Hx), Hx.
Qed.

Lemma config_ext c1 c2 : (∀ f, get f c1 = get f c2) → c1 = c2.
Proof.
  intros H. destruct c1, c2.
  pose proof (H FCredentials). pose proof (H FEndpoint). pose proof (H FRegion).
  pose proof (H FDisableSSL). pose proof (H FHTTPClient). pose proof (H FLogHTTPBody).
  pose proof (H FLogLevel). pose proof (H FLogger). pose proof (H FMaxRetries).
  pose proof (H FDisableParamValidation). pose proof (H FDisableComputeChecksums).
  pose proof (H FS3ForcePathStyle). clear H. simpl in *.
  repeat match goal with
         | H : _ <$> ?x = _ <$> ?y |- _ =>
             assert (x = y) by (destruct x, y; simpl in H; congruence); clear H
         end.
  congruence.
Qed.

(** ** The guarded assignments of [Merge], one field at a time *)

Lemma get_skip {A} (o : option A) (f : field) (c1 c2 : Config) :
  get f c1 = get f c2 → get f (if o is Some _ then c1 else c2) = get f c2.
Proof. by destruct o. Qed.

Ltac skip_guards :=
  repeat match goal with
         | |- get ?f (if _ is Some _ then _ else _) = _ =>
             rewrite (get_skip _ f); [|reflexivity]
         end.

Lemma Merge_assign_get f n c :
  get f (Merge_assign n c) = if get f n is Some _ then get f n else get f c.
Proof.
  unfold Merge_assign; cbv zeta.
  destruct f; skip_guards;
    match goal with
    | |- get _ (if ?o is Some _ then _ else _) = _ => destruct o eqn:E
    end; skip_guards; simpl; rewrite E; done.
Qed.

(** ** Running [Copy] and [Merge] *)

Lemma Copy_run c w : Copy c w = Some (c, w).
Proof. reflexivity. Qed.

Lemma Merge_nil_run c w :
  Merge c None w =
  Some (fresh (dom (heap w)), with_heap (insert (fresh (dom (heap w))) (CConfig c)) w).
Proof. reflexivity. Qed.

Lemma Merge_ptr_run c p n w :
  heap w !! p = Some (CConfig n) →
  Merge c (Some p) w =
  Some (fresh (dom (heap w)),
        with_heap (insert (fresh (dom (heap w))) (CConfig (Merge_assign n c))) w).
Proof. intros H. unfold Merge, load_config, bind, load. by rewrite H. Qed.

Lemma override_ok_inv w newcfg :
  override_ok w newcfg = true →
  newcfg = None ∨ ∃ p n, newcfg = Some p ∧ heap w !! p = Some (CConfig n).
Proof.
  destruct newcfg as [p|]; [|by left]. simpl.
  destruct (heap w !! p) as [[]|] eqn:E; try done. right; eauto.
Qed.

Lemma Merge_run c newcfg w :
  override_ok w newcfg = true →
  ∃ r, Merge c newcfg w =
       Some (fresh (dom (heap w)),
             with_heap (insert (fresh (dom (heap w))) (CConfig r)) w) ∧
       ∀ f, get f r = if override_field w newcfg f is Some _
                      then override_field w newcfg f else get f c.
Proof.
  intros [->|(p & n & -> & Hp)]%override_ok_inv.
  - exists c. split; [apply Merge_nil_run|done].
  - exists (Merge_assign n c). split; [by apply Merge_ptr_run|].
    intros f. unfold override_field. simpl. rewrite Hp. simpl. apply Merge_assign_get.
Qed.

Lemma override_field_alloc w newcfg v f :
  override_ok w newcfg = true →
  override_field (with_heap (insert (fresh (dom (heap w))) v) w) newcfg f =
  override_field w newcfg f.
Proof.
  intros [->|(p & n & -> & Hp)]%override_ok_inv; [done|].
  unfold override_field. simpl. by rewrite (lookup_alloc_old _ v p _ Hp), Hp.
Qed.

Lemma observe_alloc w v s :
  allocated w s = true →
  observe (with_heap (insert (fresh (dom (heap w))) v) w) s = observe w s.
Proof.
  unfold allocated, observe. destruct s as [r|]; simpl; [|done].
  destruct (target r) as [a|]; simpl; [|done].
  intros [x Hx]%bool_decide_eq_true. by rewrite (lookup_alloc_old _ v a x Hx), Hx.
Qed.

Lemma allocated_pick w (s t : option ref) :
  allocated w s = true → allocated w t = true →
  allocated w (if s is Some _ then s else t) = true.
Proof. by destruct s. Qed.

(** ** [Copy] *)

(** C5: for every configuration [c], [Copy] returns a struct equal to [c]
    field by field, pointer for pointer and therefore value for value, and
    leaves the whole process state as it was. *)
Theorem Copy_fieldwise_equal c w :
  ∃ d, Copy c w = Some (d, w) ∧
       ∀ f, get f d = get f c ∧ deref w (get f d) = deref w (get f c).
Proof. exists c. split; [apply Copy_run|done]. Qed.

(** ** [Merge] *)

(** C1: with an override that is not nil, every field of the merged
    configuration is the override's field when that is present and the base's
    field otherwise; the same holds of the values the fields lead to. *)
Theorem Merge_field_by_field c p n w f :
  heap w !! p = Some (CConfig n) →
  ∃ q r w',
    Merge c (Some p) w = Some (q, w') ∧
    heap w' !! q = Some (CConfig r) ∧
    get f r = (if get f n is Some _ then get f n else get f c) ∧
    (allocated w (get f n) = true → allocated w (get f c) = true →
     deref w' (get f r) = deref w (if get f n is Some _ then get f n else get f c)).
Proof.
  intros Hp. eexists _, _, _. split; [by apply Merge_ptr_run|].
  split; [apply lookup_alloc_new|].
  split; [apply Merge_assign_get|].
  intros Hn Hc. rewrite Merge_assign_get. apply deref_alloc.
  by apply allocated_pick.
Qed.

(** C2: an override field that is present and leads to a zero value ([false],
    [0], the empty string) replaces the base's field all the same, and the
    merged field leads to that zero value; so [DisableSSL] present and [false]
    in the override, over [true] in the base, merges to [false]. *)
Theorem Merge_falsy_override c p n w :
  heap w !! p = Some (CConfig n) →
  ∃ q r w',
    Merge c (Some p) w = Some (q, w') ∧
    heap w' !! q = Some (CConfig r) ∧
    (∀ f a v, get f n = Some (RPtr a) → heap w !! a = Some v → falsy v = true →
              get f r = Some (RPtr a) ∧ deref w' (get f r) = Some v) ∧
    (∀ t e, DisableSSL c = Some t → heap w !! t = Some (CBool true) →
            DisableSSL n = Some e → heap w !! e = Some (CBool false) →
            box w' (DisableSSL r) = Some (CBool false)).
Proof.
  intros Hp. eexists _, _, _. split; [by apply Merge_ptr_run|].
  split; [apply lookup_alloc_new|].
  assert (Hpresent : ∀ f a v, get f n = Some (RPtr a) → heap w !! a = Some v →
            get f (Merge_assign n c) = Some (RPtr a) ∧
            deref (with_heap (insert (fresh (dom (heap w))) (CConfig (Merge_assign n c))) w)
                  (get f (Merge_assign n c)) = Some v).
  { intros f a v Hf Ha. rewrite Merge_assign_get, Hf. split; [done|].
    unfold deref; simpl. by apply lookup_alloc_old. }
  split.
  - intros f a v Hf Ha _. by apply Hpresent.
  - intros t e _ _ He Hfalse.
    destruct (Hpresent FDisableSSL e (CBool false)) as [Hr Hv]; [by simpl; rewrite He|done|].
    unfold deref, get in Hr, Hv.
    destruct (DisableSSL (Merge_assign n c)) as [a|]; [|done].
    by injection Hr as ->.
Qed.

(** C3: [Merge] changes nothing that existed before the call.  Its only
    effect is one new cell, at an address not in use, that holds the result:
    every cell of the heap (the override struct, a stored base struct, what
    any field of either leads to) holds after the call what it held before,
    and so do the fields of the override and the values behind the fields of
    base and override; environment and [Getenv] log are untouched. *)
Theorem Merge_mutates_nothing c newcfg w :
  override_ok w newcfg = true →
  ∃ q r w',
    Merge c newcfg w = Some (q, w') ∧
    heap w !! q = None ∧
    w' = with_heap (insert q (CConfig r)) w ∧
    (∀ a v, heap w !! a = Some v → heap w' !! a = Some v) ∧
    (∀ f, override_field w' newcfg f = override_field w newcfg f) ∧
    (∀ f, allocated w (get f c) = true → deref w' (get f c) = deref w (get f c)) ∧
    (∀ f, allocated w (override_field w newcfg f) = true →
          deref w' (override_field w' newcfg f) = deref w (override_field w newcfg f)) ∧
    environ w' = environ w ∧ getenv_log w' = getenv_log w.
Proof.
  intros Hok. destruct (Merge_run c newcfg w Hok) as (r & Hrun & _).
  eexists _, r, _. split; [exact Hrun|].
  split; [apply fresh_unused|]. split; [done|].
  split; [intros a v Ha; by apply lookup_alloc_old|].
  split; [intros f; by apply override_field_alloc|].
  split; [intros f Hf; by apply deref_alloc|].
  split; [|done].
  intros f Hf. rewrite override_field_alloc by done. by apply deref_alloc.
Qed.

(** C4: with a nil override [Merge] returns a new struct equal, field by
    field and value by value, to what [Copy] returns.  Neither function can
    fail: [Copy] returns for every input, and [Merge] returns whenever its
    override is nil or a pointer to a [Config], which is all a Go caller can
    pass. *)
Theorem Merge_nil_is_Copy c w :
  ∃ d q r w',
    Copy c w = Some (d, w) ∧
    Merge c None w = Some (q, w') ∧
    heap w' !! q = Some (CConfig r) ∧
    (∀ f, get f r = get f d) ∧
    (∀ f, allocated w (get f d) = true → deref w' (get f r) = deref w (get f d)) ∧
    (∀ c' w0, is_Some (Copy c' w0)) ∧
    (∀ c' newcfg w0, override_ok w0 newcfg = true ↔ is_Some (Merge c' newcfg w0)).
Proof.
  eexists c, _, c, _. split; [apply Copy_run|]. split; [apply Merge_nil_run|].
  split; [apply lookup_alloc_new|]. split; [done|].
  split; [intros f Hf; by apply deref_alloc|].
  split; [intros c' w0; by eexists|].
  intros c' newcfg w0. split.
  - intros Hok. destruct (Merge_run c' newcfg w0 Hok) as (r & -> & _). by eexists.
  - destruct newcfg as [p|]; [|done]. unfold Merge, load_config, bind, load. simpl.
    destruct (heap w0 !! p) as [[]|]; simpl; try done; by intros [? ?].
Qed.

Lemma override_ok_alloc w newcfg v :
  override_ok w newcfg = true →
  override_ok (with_heap (insert (fresh (dom (heap w))) v) w) newcfg = true.
Proof.
  intros [->|(p & n & -> & Hp)]%override_ok_inv; [done|].
  simpl. by rewrite (lookup_alloc_old _ v p _ Hp).
Qed.

Lemma load_config_run p c w :
  heap w !! p = Some (CConfig c) → load_config p w = Some (c, w).
Proof. intros H. unfold load_config, bind, load. by rewrite H. Qed.

Lemma observe_pick w (s t : option ref) :
  observe w (if s is Some _ then s else t) =
  if observe w s is Some _ then observe w s else observe w t.
Proof. by destruct s. Qed.

(** C9: merging the same override a second time changes nothing: the struct
    returned by [c.Merge(newcfg).Merge(newcfg)] equals the struct returned by
    [c.Merge(newcfg)], in every field and in every value a field leads to. *)
Theorem Merge_idempotent c newcfg w :
  override_ok w newcfg = true →
  ∃ q1 r1 w1 q2 r2 w2,
    Merge c newcfg w = Some (q1, w1) ∧
    heap w1 !! q1 = Some (CConfig r1) ∧
    Merge_again c newcfg w = Some (q2, w2) ∧
    heap w2 !! q2 = Some (CConfig r2) ∧
    r2 = r1 ∧
    (∀ f, get f r2 = get f r1) ∧
    (∀ f, allocated w1 (get f r1) = true → deref w2 (get f r2) = deref w1 (get f r1)).
Proof.
  intros Hok.
  destruct (Merge_run c newcfg w Hok) as (r1 & Hrun1 & Hget1).
  set (q1 := fresh (dom (heap w))) in *.
  set (w1 := with_heap (insert q1 (CConfig r1)) w) in *.
  assert (Hq1 : heap w1 !! q1 = Some (CConfig r1)) by apply lookup_alloc_new.
  assert (Hok1 : override_ok w1 newcfg = true) by by apply override_ok_alloc.
  destruct (Merge_run r1 newcfg w1 Hok1) as (r2 & Hrun2 & Hget2).
  assert (Heq : r2 = r1).
  { apply config_ext. intros f. rewrite Hget2.
    unfold w1, q1. rewrite override_field_alloc by done. rewrite Hget1.
    by destruct (override_field w newcfg f). }
  exists q1, r1, w1. eexists _, r2, _.
  split; [exact Hrun1|]. split; [exact Hq1|].
  split.
  { unfold Merge_again, bind. rewrite Hrun1.
    rewrite (load_config_run q1 r1 w1 Hq1). exact Hrun2. }
  split; [apply lookup_alloc_new|]. split; [exact Heq|].
  split; [by rewrite Heq|].
  intros f Hf. rewrite Heq. by apply deref_alloc.
Qed.

(** C10: field [f] of the merged configuration depends on field [f] of the
    base and of the override only.  Two runs of [Merge], on any two states,
    bases and overrides, that agree on field [f] of the base and of the
    override (an absent override having no field present) return structs that
    agree on field [f]; and when the runs agree on what field [f] leads to,
    rather than on the pointers, so do the results. *)
Theorem Merge_field_independent f c1 c2 o1 o2 w1 w2 :
  override_ok w1 o1 = true →
  override_ok w2 o2 = true →
  ∃ q1 r1 w1' q2 r2 w2',
    Merge c1 o1 w1 = Some (q1, w1') ∧ heap w1' !! q1 = Some (CConfig r1) ∧
    Merge c2 o2 w2 = Some (q2, w2') ∧ heap w2' !! q2 = Some (CConfig r2) ∧
    (get f c1 = get f c2 →
     override_field w1 o1 f = override_field w2 o2 f →
     get f r1 = get f r2) ∧
    (allocated w1 (get f c1) = true → allocated w1 (override_field w1 o1 f) = true →
     allocated w2 (get f c2) = true → allocated w2 (override_field w2 o2 f) = true →
     observe w1 (get f c1) = observe w2 (get f c2) →
     observe w1 (override_field w1 o1 f) = observe w2 (override_field w2 o2 f) →
     observe w1' (get f r1) = observe w2' (get f r2)).
Proof.
  intros Hok1 Hok2.
  destruct (Merge_run c1 o1 w1 Hok1) as (r1 & Hrun1 & Hget1).
  destruct (Merge_run c2 o2 w2 Hok2) as (r2 & Hrun2 & Hget2).
  eexists _, r1, _, _, r2, _.
  split; [exact Hrun1|]. split; [apply lookup_alloc_new|].
  split; [exact Hrun2|]. split; [apply lookup_alloc_new|].
  split.
  - intros Hc Ho. by rewrite Hget1, Hget2, Hc, Ho.
  - intros Ha1 Hb1 Ha2 Hb2 Hc Ho.
    rewrite !observe_alloc by (rewrite ?Hget1, ?Hget2; by apply allocated_pick).
    by rewrite Hget1, Hget2, !observe_pick, Hc, Ho.
Qed.

(** ** [DefaultConfig] *)

Lemma bind_run {A B} (m : Go A) (k : A → Go B) w x w1 :
  m w = Some (x, w1) → (y <- m;; k y) w = k x w1.
Proof. intros H. unfold bind. by rewrite H. Qed.

Lemma alloc_run v w :
  alloc v w = Some (fresh (dom (heap w)), with_heap (insert (fresh (dom (heap w))) v) w).
Proof. reflexivity. Qed.

Lemma String_run v w :
  String v w = Some (Some (fresh (dom (heap w))),
                     with_heap (insert (fresh (dom (heap w))) (CString v)) w).
Proof. reflexivity. Qed.

Lemma Bool_run v w :
  Bool v w = Some (Some (fresh (dom (heap w))),
                   with_heap (insert (fresh (dom (heap w))) (CBool v)) w).
Proof. reflexivity. Qed.

Lemma Int_run v w :
  Int v w = Some (Some (fresh (dom (heap w))),
                  with_heap (insert (fresh (dom (heap w))) (CInt v)) w).
Proof. reflexivity. Qed.

(** One allocation of the run, with the new address and the new state named. *)
Ltac name_alloc :=
  match goal with
  | |- context [with_heap (insert (fresh (dom (heap ?w0))) ?v) ?w0] =>
      let a := fresh "a" in let w := fresh "w" in
      set (a := fresh (dom (heap w0))); set (w := with_heap (insert a v) w0)
  end.

Ltac box_step := erewrite bind_run by first [apply String_run | apply Bool_run | apply Int_run]; name_alloc.

(** A cell allocated earlier in a run is found under the later allocations. *)
Ltac find_cell :=
  first [ apply lookup_alloc_new | apply lookup_alloc_old; find_cell ].

Lemma DefaultConfig_run cred http out w :
  ∃ endpoint region disableSSL logHTTPBody logLevel maxRetries disableParamValidation
    disableComputeChecksums s3ForcePathStyle d w',
    DefaultConfig cred http out w = Some (d, w') ∧
    heap w' !! d = Some (CConfig (mkConfig cred (Some endpoint) (Some region)
      (Some disableSSL) http (Some logHTTPBody) (Some logLevel)
      (Some (Iface "*os.File" out)) (Some maxRetries) (Some disableParamValidation)
      (Some disableComputeChecksums) (Some s3ForcePathStyle))) ∧
    getenv_log w' = "AWS_REGION"%string :: getenv_log w ∧
    environ w' = environ w ∧
    heap w' !! endpoint = Some (CString EmptyString) ∧
    heap w' !! region =
      Some (CString (default EmptyString (environ w !! "AWS_REGION"%string))) ∧
    heap w' !! disableSSL = Some (CBool false) ∧
    heap w' !! logHTTPBody = Some (CBool false) ∧
    heap w' !! logLevel = Some (CInt 0) ∧
    heap w' !! maxRetries = Some (CInt (-1)) ∧
    heap w' !! disableParamValidation = Some (CBool false) ∧
    heap w' !! disableComputeChecksums = Some (CBool false) ∧
    heap w' !! s3ForcePathStyle = Some (CBool false).
Proof.
  unfold DefaultConfig.
  box_step.
  erewrite bind_run by reflexivity.
  set (wenv := World _ _ _).
  do 8 box_step.
  rewrite alloc_run. name_alloc.
  eexists _, _, _, _, _, _, _, _, _, _, _. split; [reflexivity|].
  split; [find_cell|]. split; [reflexivity|]. split; [reflexivity|].
  repeat split; find_cell.
Qed.

(** C7: the initialiser of [DefaultConfig] asks for the environment variable
    [AWS_REGION] once, and for no other; the region field of the default
    configuration is present and leads to the variable's value, which is the
    empty string when the variable is not set; the initialiser cannot fail. *)
Theorem DefaultConfig_region cred http out w :
  ∃ d cfg w',
    DefaultConfig cred http out w = Some (d, w') ∧
    heap w' !! d = Some (CConfig cfg) ∧
    getenv_log w' = "AWS_REGION"%string :: getenv_log w ∧
    environ w' = environ w ∧
    box w' (Region cfg) =
      Some (CString (default EmptyString (environ w !! "AWS_REGION"%string))) ∧
    (environ w !! "AWS_REGION"%string = None →
     box w' (Region cfg) = Some (CString EmptyString)).
Proof.
  destruct (DefaultConfig_run cred http out w)
    as (? & region & ? & ? & ? & ? & ? & ? & ? & d & w' & Hrun & Hd & Hlog & Henv &
        _ & Hregion & _).
  eexists d, _, w'. split; [exact Hrun|]. split; [exact Hd|].
  split; [exact Hlog|]. split; [exact Henv|]. simpl.
  split; [exact Hregion|]. intros Hunset. by rewrite Hregion, Hunset.
Qed.

(** C8: in the default configuration the logger is the standard output
    stream, the log level is present and 0, the retry ceiling is present and
    -1, the endpoint is present and empty, and each of the five boolean
    switches is present and false. *)
Theorem DefaultConfig_defaults cred http out w :
  ∃ d cfg w',
    DefaultConfig cred http out w = Some (d, w') ∧
    heap w' !! d = Some (CConfig cfg) ∧
    Logger cfg = Some (Iface "*os.File" out) ∧
    box w' (LogLevel cfg) = Some (CInt 0) ∧
    box w' (MaxRetries cfg) = Some (CInt DefaultRetries) ∧
    DefaultRetries = -1 ∧
    box w' (Endpoint cfg) = Some (CString EmptyString) ∧
    box w' (DisableSSL cfg) = Some (CBool false) ∧
    box w' (LogHTTPBody cfg) = Some (CBool false) ∧
    box w' (DisableParamValidation cfg) = Some (CBool false) ∧
    box w' (DisableComputeChecksums cfg) = Some (CBool false) ∧
    box w' (S3ForcePathStyle cfg) = Some (CBool false).
Proof.
  destruct (DefaultConfig_run cred http out w)
    as (? & ? & ? & ? & ? & ? & ? & ? & ? & d & w' & Hrun & Hd & _ & _ &
        ? & _ & ? & ? & ? & ? & ? & ? & ?).
  eexists d, _, w'. split; [exact Hrun|]. split; [exact Hd|]. simpl.
  by repeat split.
Qed.

(** ** What [Copy] shares *)

Lemma store_run p v w x :
  heap w !! p = Some x → store p v w = Some (tt, with_heap (insert p v) w).
Proof. intros H. unfold store. by rewrite H. Qed.

(** C6, against the claim: the box of a scalar field is not the duplicate's
    own.  [Copy] of [base0] returns [base0]; [Region] is a scalar field;
    writing ["eu-west-1"] through the duplicate's [Region] succeeds, and the
    source's [Region], which led to ["us-east-1"], now leads to
    ["eu-west-1"]. *)
Lemma Copy_scalar_box_is_shared :
  is_handle FRegion = false ∧
  Copy base0 world0 = Some (base0, world0) ∧
  write_through base0 FRegion (CString "eu-west-1") world0 =
    Some (tt, world0_region_written) ∧
  deref world0 (get FRegion base0) = Some (CString "us-east-1") ∧
  deref world0_region_written (get FRegion base0) = Some (CString "eu-west-1") ∧
  deref world0_region_written (get FRegion base0) ≠ deref world0 (get FRegion base0).
Proof. repeat split; try reflexivity. vm_compute. discriminate. Qed.

(** C6, amended: [Copy] copies every field's pointer, scalar and handle
    alike.  The duplicate's fields equal the source's; a write through any
    present field of the duplicate, a scalar's box as much as a handle, is
    seen through the source; what is the duplicate's own is the struct: once
    it is stored in a variable of its own, assigning any of its fields leaves
    the stored source as it was. *)
Theorem Copy_shares_pointees c w :
  ∃ dup,
    Copy c w = Some (dup, w) ∧
    (∀ f, get f dup = get f c) ∧
    (∀ f a v, get f dup ≫= target = Some a → is_Some (heap w !! a) →
              ∃ w2, write_through dup f v w = Some (tt, w2) ∧
                    deref w2 (get f dup) = Some v ∧ deref w2 (get f c) = Some v) ∧
    (∀ ps, heap w !! ps = Some (CConfig c) →
           ∃ pd w1, alloc (CConfig dup) w = Some (pd, w1) ∧
             ∀ set, ∃ w2, assign_field pd set w1 = Some (tt, w2) ∧
                          heap w2 !! pd = Some (CConfig (set dup)) ∧
                          heap w2 !! ps = Some (CConfig c)).
Proof.
  exists c. split; [apply Copy_run|]. split; [done|]. split.
  - intros f a v Hf [x Hx]. unfold write_through, deref. rewrite Hf.
    eexists. split; [by apply (store_run a v w x)|].
    simpl. by rewrite lookup_insert_eq.
  - intros ps Hps. eexists _, _. split; [apply alloc_run|].
    set (pd := fresh (dom (heap w))). set (w1 := with_heap (insert pd (CConfig c)) w).
    assert (Hpd : heap w1 !! pd = Some (CConfig c)) by apply lookup_alloc_new.
    assert (Hne : pd ≠ ps).
    { intros E. pose proof (fresh_unused (heap w)) as Hf. fold pd in Hf.
      rewrite E, Hps in Hf. done. }
    intros set. eexists. split.
    { unfold assign_field. rewrite (bind_run _ _ _ _ _ (load_config_run pd c w1 Hpd)).
      by apply (store_run pd _ w1 (CConfig c)). }
    simpl. split; [apply lookup_insert_eq|].
    by rewrite !lookup_insert_ne.
Qed.

(** ** The theorems at work on the concrete process *)

Lemma Merge_field_by_field_witness :
  heap world0 !! 10%positive = Some (CConfig override0) ∧
  ∃ q r w',
    Merge base0 (Some 10%positive) world0 = Some (q, w') ∧
    heap w' !! q = Some (CConfig r) ∧
    get FDisableSSL r = Some (RPtr 6%positive).
Proof.
  split; [reflexivity|].
  destruct (Merge_field_by_field base0 10%positive override0 world0 FDisableSSL eq_refl)
    as (q & r & w' & Hrun & Hq & Hf & _).
  exists q, r, w'. split; [exact Hrun|]. split; [exact Hq|exact Hf].
Defined.

Lemma Merge_falsy_override_witness :
  heap world0 !! 10%positive = Some (CConfig override0) ∧
  ∃ q r w',
    Merge base0 (Some 10%positive) world0 = Some (q, w') ∧
    heap w' !! q = Some (CConfig r) ∧
    box w' (DisableSSL r) = Some (CBool false).
Proof.
  split; [reflexivity|].
  destruct (Merge_falsy_override base0 10%positive override0 world0 eq_refl)
    as (q & r & w' & Hrun & Hq & _ & Hssl).
  exists q, r, w'. split; [exact Hrun|]. split; [exact Hq|].
  exact (Hssl 3%positive 6%positive eq_refl eq_refl eq_refl eq_refl).
Defined.

Lemma Merge_mutates_nothing_witness :
  override_ok world0 (Some 10%positive) = true ∧
  ∃ q w',
    Merge base0 (Some 10%positive) world0 = Some (q, w') ∧
    heap world0 !! q = None ∧
    heap w' !! 10%positive = Some (CConfig override0) ∧
    heap w' !! 11%positive = Some (CConfig base0).
Proof.
  split; [reflexivity|].
  destruct (Merge_mutates_nothing base0 (Some 10%positive) world0 eq_refl)
    as (q & r & w' & Hrun & Hq & _ & Hold & _).
  exists q, w'. split; [exact Hrun|]. split; [exact Hq|].
  split; apply Hold; reflexivity.
Defined.

Lemma Merge_idempotent_witness :
  override_ok world0 (Some 10%positive) = true ∧
  ∃ q1 r1 w1 q2 r2 w2,
    Merge base0 (Some 10%positive) world0 = Some (q1, w1) ∧
    heap w1 !! q1 = Some (CConfig r1) ∧
    Merge_again base0 (Some 10%positive) world0 = Some (q2, w2) ∧
    heap w2 !! q2 = Some (CConfig r2) ∧
    r2 = r1.
Proof.
  split; [reflexivity|].
  destruct (Merge_idempotent base0 (Some 10%positive) world0 eq_refl)
    as (q1 & r1 & w1 & q2 & r2 & w2 & H1 & H2 & H3 & H4 & H5 & _).
  exists q1, r1, w1, q2, r2, w2. repeat split; assumption.
Defined.

Lemma Merge_field_independent_witness :
  override_ok world0 (Some 10%positive) = true ∧
  get FDisableSSL base0 = get FDisableSSL base1 ∧
  get FRegion base0 ≠ get FRegion base1 ∧
  ∃ q1 r1 w1' q2 r2 w2',
    Merge base0 (Some 10%positive) world0 = Some (q1, w1') ∧
    heap w1' !! q1 = Some (CConfig r1) ∧
    Merge base1 (Some 10%positive) world0 = Some (q2, w2') ∧
    heap w2' !! q2 = Some (CConfig r2) ∧
    get FDisableSSL r1 = get FDisableSSL r2.
Proof.
  split; [reflexivity|]. split; [reflexivity|]. split; [discriminate|].
  destruct (Merge_field_independent FDisableSSL base0 base1 (Some 10%positive)
              (Some 10%positive) world0 world0 eq_refl eq_refl)
    as (q1 & r1 & w1' & q2 & r2 & w2' & H1 & H2 & H3 & H4 & H5 & _).
  exists q1, r1, w1', q2, r2, w2'.
  split; [exact H1|]. split; [exact H2|]. split; [exact H3|]. split; [exact H4|].
  apply H5; reflexivity.
Defined.

Example Merge_example :
  (λ '(q, w'), heap w' !! q) <$> Merge base0 (Some 10%positive) world0 =
  Some (Some (CConfig
    {| Credentials := Some 1%positive; Endpoint := Some 9%positive;
       Region := Some 2%positive; DisableSSL := Some 6%positive;
       HTTPClient := None; LogHTTPBody := None; LogLevel := Some 8%positive;
       Logger := Some (Iface "*os.File" (Some 5%positive));
       MaxRetries := Some 7%positive; DisableParamValidation := None;
       DisableComputeChecksums := None; S3ForcePathStyle := None |})).
Proof. vm_compute. reflexivity. Qed.

Example DefaultConfig_example :
  (λ '(d, w'), (getenv_log w', cfg ← heap w' !! d;
                if cfg is CConfig c then box w' (Region c) else None)) <$>
    DefaultConfig (Some 1%positive) None (Some 5%positive) world0 =
  Some (["AWS_REGION"%string], Some (CString EmptyString)).
Proof. vm_compute. reflexivity. Qed.

(** ** Layering overrides *)

Lemma all_fields_complete f : In f all_fields.
Proof. destruct f; simpl; tauto. Qed.

Lemma Merge_then_run c o1 o2 w :
  override_ok w o1 = true → override_ok w o2 = true →
  ∃ r1 r2 q2 w2,
    Merge_then c o1 o2 w = Some (q2, w2) ∧
    heap w2 !! q2 = Some (CConfig r2) ∧
    (∀ f, get f r1 = if override_field w o1 f is Some _
                     then override_field w o1 f else get f c) ∧
    (∀ f, get f r2 = if override_field w o2 f is Some _
                     then override_field w o2 f else get f r1).
Proof.
  intros Hok1 Hok2.
  destruct (Merge_run c o1 w Hok1) as (r1 & Hrun1 & Hget1).
  set (q1 := fresh (dom (heap w))) in *.
  set (w1 := with_heap (insert q1 (CConfig r1)) w) in *.
  assert (Hq1 : heap w1 !! q1 = Some (CConfig r1)) by apply lookup_alloc_new.
  assert (Hok2' : override_ok w1 o2 = true) by by apply override_ok_alloc.
  destruct (Merge_run r1 o2 w1 Hok2') as (r2 & Hrun2 & Hget2).
  exists r1, r2. eexists _, _. split.
  { unfold Merge_then. rewrite (bind_run _ _ _ _ _ Hrun1).
    rewrite (bind_run _ _ _ _ _ (load_config_run q1 r1 w1 Hq1)). exact Hrun2. }
  split; [apply lookup_alloc_new|]. split; [exact Hget1|].
  intros f. rewrite Hget2. unfold w1, q1. by rewrite override_field_alloc.
Qed.

Lemma override_field_ptr w p n f :
  heap w !! p = Some (CConfig n) → override_field w (Some p) f = get f n.
Proof. intros H. unfold override_field. simpl. by rewrite H. Qed.

Lemma override_ok_ptr w p n :
  heap w !! p = Some (CConfig n) → override_ok w (Some p) = true.
Proof. intros H. simpl. by rewrite H. Qed.

Lemma populated_spec c :
  populated c = true ↔ ∀ f, is_handle f = false → is_Some (get f c).
Proof.
  unfold populated. rewrite forallb_forall. split.
  - intros H f Hf. specialize (H f (all_fields_complete f)).
    destruct (get f c); [by eexists|congruence].
  - intros H f _. destruct (is_handle f) eqn:Hf; [by destruct (get f c)|].
    by destruct (H f Hf) as [r ->].
Qed.

Lemma disjoint_fields_spec n1 n2 f :
  disjoint_fields n1 n2 = true → get f n1 = None ∨ get f n2 = None.
Proof.
  unfold disjoint_fields. rewrite forallb_forall. intros H.
  specialize (H f (all_fields_complete f)).
  destruct (get f n1); [|by left]. destruct (get f n2); [done|by right].
Qed.

(** X1: Merging two overrides one after the other is merging their merge:
    [c.Merge(o1).Merge(o2)] and [c.Merge(o1.Merge(o2))] return equal
    structs. *)
Theorem Merge_assoc c p1 n1 o2 w :
  heap w !! p1 = Some (CConfig n1) →
  override_ok w o2 = true →
  ∃ qa ra wa qb rb wb,
    Merge_then c (Some p1) o2 w = Some (qa, wa) ∧
    heap wa !! qa = Some (CConfig ra) ∧
    Merge_into c p1 o2 w = Some (qb, wb) ∧
    heap wb !! qb = Some (CConfig rb) ∧
    ra = rb.
Proof.
  intros Hp1 Hok2.
  destruct (Merge_then_run c (Some p1) o2 w (override_ok_ptr w p1 n1 Hp1) Hok2)
    as (r1 & ra & qa & wa & Hruna & Hqa & Hget1 & Hgeta).
  destruct (Merge_run n1 o2 w Hok2) as (r12 & Hrun12 & Hget12).
  set (p12 := fresh (dom (heap w))) in *.
  set (w1 := with_heap (insert p12 (CConfig r12)) w) in *.
  assert (Hp12 : heap w1 !! p12 = Some (CConfig r12)) by apply lookup_alloc_new.
  exists qa, ra, wa. eexists _, (Merge_assign r12 c), _.
  split; [exact Hruna|]. split; [exact Hqa|]. split.
  { unfold Merge_into. rewrite (bind_run _ _ _ _ _ (load_config_run p1 n1 w Hp1)).
    rewrite (bind_run _ _ _ _ _ Hrun12). by apply Merge_ptr_run. }
  split; [apply lookup_alloc_new|].
  apply config_ext. intros f.
  rewrite Hgeta, Hget1, Merge_assign_get, Hget12, (override_field_ptr w p1 n1 f Hp1).
  by destruct (override_field w o2 f), (get f n1).
Qed.

(** X2: The zero struct [Config{}] is a unit of [Merge] on both sides: as the
    override it changes nothing of the base, and as the base it gives back
    the override's struct. *)
Theorem Merge_zero_unit c pz p n w :
  heap w !! pz = Some (CConfig Config_zero) →
  heap w !! p = Some (CConfig n) →
  (∃ q w', Merge c (Some pz) w = Some (q, w') ∧ heap w' !! q = Some (CConfig c)) ∧
  (∃ q w', Merge Config_zero (Some p) w = Some (q, w') ∧ heap w' !! q = Some (CConfig n)).
Proof.
  intros Hpz Hp. split; eexists _, _.
  - split; [by apply Merge_ptr_run|]. apply lookup_alloc_new.
  - split; [by apply Merge_ptr_run|].
    assert (E : Merge_assign n Config_zero = n).
    { apply config_ext. intros f. rewrite Merge_assign_get.
      destruct (get f n); [done|by destruct f]. }
    etrans; [apply lookup_alloc_new|]. by rewrite E.
Qed.

(** X3: [Merge] returns a struct equal to its base exactly when every field the
    override has present is already the base's field. *)
Theorem Merge_returns_base_iff c p n w :
  heap w !! p = Some (CConfig n) →
  ∃ q r w',
    Merge c (Some p) w = Some (q, w') ∧
    heap w' !! q = Some (CConfig r) ∧
    (r = c ↔ ∀ f, get f n = None ∨ get f n = get f c).
Proof.
  intros Hp. eexists _, _, _. split; [by apply Merge_ptr_run|].
  split; [apply lookup_alloc_new|]. split.
  - intros Heq f. pose proof (Merge_assign_get f n c) as Hf. rewrite Heq in Hf.
    destruct (get f n); [by right|by left].
  - intros H. apply config_ext. intros f. rewrite Merge_assign_get.
    by destruct (H f) as [->| ->]; [|destruct (get f c)].
Qed.

(** X4: [Merge] never clears a field: a field of the result is present exactly
    when it is present in the base or in the override.  So when every scalar
    field of the base is present, every scalar field of the result is. *)
Theorem Merge_keeps_presence c newcfg w :
  override_ok w newcfg = true →
  ∃ q r w',
    Merge c newcfg w = Some (q, w') ∧
    heap w' !! q = Some (CConfig r) ∧
    (∀ f, is_Some (get f r) ↔
          is_Some (get f c) ∨ is_Some (override_field w newcfg f)) ∧
    (populated c = true → populated r = true).
Proof.
  intros Hok. destruct (Merge_run c newcfg w Hok) as (r & Hrun & Hget).
  eexists _, r, _. split; [exact Hrun|]. split; [apply lookup_alloc_new|].
  assert (Hpres : ∀ f, is_Some (get f r) ↔
            is_Some (get f c) ∨ is_Some (override_field w newcfg f)).
  { intros f. rewrite Hget. destruct (override_field w newcfg f) as [x|].
    - split; [right|]; by eexists.
    - split; [by left|]. intros [H|[? ?]]; [exact H|done]. }
  split; [exact Hpres|].
  rewrite !populated_spec. intros Hc f Hf. apply Hpres. left. by apply Hc.
Qed.

(** X5: Overrides that set no field in common can be merged in either order:
    [c.Merge(o1).Merge(o2)] and [c.Merge(o2).Merge(o1)] return equal
    structs. *)
Theorem Merge_disjoint_commute c p1 n1 p2 n2 w :
  heap w !! p1 = Some (CConfig n1) →
  heap w !! p2 = Some (CConfig n2) →
  disjoint_fields n1 n2 = true →
  ∃ qa ra wa qb rb wb,
    Merge_then c (Some p1) (Some p2) w = Some (qa, wa) ∧
    heap wa !! qa = Some (CConfig ra) ∧
    Merge_then c (Some p2) (Some p1) w = Some (qb, wb) ∧
    heap wb !! qb = Some (CConfig rb) ∧
    ra = rb.
Proof.
  intros Hp1 Hp2 Hdis.
  pose proof (override_ok_ptr w p1 n1 Hp1) as Hok1.
  pose proof (override_ok_ptr w p2 n2 Hp2) as Hok2.
  destruct (Merge_then_run c (Some p1) (Some p2) w Hok1 Hok2)
    as (s1 & ra & qa & wa & Hruna & Hqa & Hs1 & Hra).
  destruct (Merge_then_run c (Some p2) (Some p1) w Hok2 Hok1)
    as (s2 & rb & qb & wb & Hrunb & Hqb & Hs2 & Hrb).
  exists qa, ra, wa, qb, rb, wb.
  split; [exact Hruna|]. split; [exact Hqa|]. split; [exact Hrunb|].
  split; [exact Hqb|].
  apply config_ext. intros f.
  rewrite Hra, Hs1, Hrb, Hs2.
  rewrite !(override_field_ptr w p1 n1 f Hp1), !(override_field_ptr w p2 n2 f Hp2).
  by destruct (disjoint_fields_spec n1 n2 f Hdis) as [-> | ->];
    [destruct (get f n2)|destruct (get f n1)].
Qed.

(** ** The layout of the default configuration *)

(** One boxing call of the run, keeping that the new address was unused. *)
Ltac box_step_fresh :=
  erewrite bind_run by first [apply String_run | apply Bool_run | apply Int_run];
  match goal with
  | |- context [with_heap (insert (fresh (dom (heap ?w0))) ?v) ?w0] =>
      let a := fresh "a" in let w := fresh "w" in let Hf := fresh "Hf" in
      pose proof (fresh_unused (heap w0)) as Hf;
      set (a := fresh (dom (heap w0))) in *; set (w := with_heap (insert a v) w0)
  end.

Lemma DefaultConfig_layout cred http out w :
  ∃ e r b1 b2 l m b3 b4 b5 d w',
    DefaultConfig cred http out w = Some (d, w') ∧
    heap w' =
      <[d := CConfig (mkConfig cred (Some e) (Some r) (Some b1) http (Some b2)
               (Some l) (Some (Iface "*os.File" out)) (Some m) (Some b3) (Some b4)
               (Some b5))]>
      (<[b5 := CBool false]> (<[b4 := CBool false]> (<[b3 := CBool false]>
      (<[m := CInt (-1)]> (<[l := CInt 0]> (<[b2 := CBool false]>
      (<[b1 := CBool false]>
      (<[r := CString (default EmptyString (environ w !! "AWS_REGION"%string))]>
      (<[e := CString EmptyString]> (heap w)))))))))) ∧
    NoDup [e; r; b1; b2; l; m; b3; b4; b5; d] ∧
    Forall (λ a, heap w !! a = None) [e; r; b1; b2; l; m; b3; b4; b5; d].
Proof.
  unfold DefaultConfig.
  box_step_fresh.
  erewrite bind_run by reflexivity.
  set (wenv := World _ _ _).
  do 8 box_step_fresh.
  rewrite alloc_run.
  match goal with
  | |- context [with_heap (insert (fresh (dom (heap ?w0))) ?v) ?w0] =>
      pose proof (fresh_unused (heap w0)) as Hd;
      set (d := fresh (dom (heap w0))) in *
  end.
  eexists _, _, _, _, _, _, _, _, _, _, _. split; [reflexivity|].
  repeat match goal with x := with_heap _ _ |- _ => subst x end.
  subst wenv. cbn [heap with_heap environ getenv_log] in *.
  repeat match goal with x := fresh _ |- _ => clearbody x end.
  split; [reflexivity|].
  repeat match goal with H : _ !! _ = None |- _ => rewrite !lookup_insert_None in H end.
  split.
  - repeat (apply NoDup_cons_2;
              [rewrite ?not_elem_of_cons, elem_of_nil; intuition congruence|]).
    apply NoDup_nil_2.
  - repeat (apply Forall_cons_2; [tauto|]). apply Forall_nil_2.
Qed.

Lemma well_typed_spec w c :
  well_typed w c = true ↔ ∀ f, well_typed_field w f (get f c) = true.
Proof.
  unfold well_typed. rewrite forallb_forall. split.
  - intros H f. apply H, all_fields_complete.
  - intros H f _. apply H.
Qed.

(** The pairwise disequalities of a [NoDup] hypothesis. *)
Ltac nodup_facts H :=
  repeat (apply NoDup_cons in H as [? H]);
  rewrite ?not_elem_of_cons in *.

(** X9: The default configuration has every scalar field present, and is well
    typed when the three handles it is given are: each field leads to an
    allocated cell of the field's type. *)
Theorem DefaultConfig_well_typed cred http out w :
  well_typed_field w FCredentials (RPtr <$> cred) = true →
  well_typed_field w FHTTPClient (RPtr <$> http) = true →
  well_typed_field w FLogger (Some (RIface (Iface "*os.File" out))) = true →
  ∃ d cfg w',
    DefaultConfig cred http out w = Some (d, w') ∧
    heap w' !! d = Some (CConfig cfg) ∧
    populated cfg = true ∧
    well_typed w' cfg = true.
Proof.
  intros Hcred Hhttp Hout.
  destruct (DefaultConfig_layout cred http out w)
    as (e & r & b1 & b2 & l & m & b3 & b4 & b5 & d & w' & Hrun & Hheap & Hnd & Hnew).
  eexists d, _, w'. split; [exact Hrun|].
  split; [rewrite Hheap; apply lookup_insert_eq|].
  split; [by destruct cred, http|].
  nodup_facts Hnd.
  repeat (apply Forall_cons in Hnew as [? Hnew]).
  assert (Hold : ∀ a v, heap w !! a = Some v → heap w' !! a = Some v).
  { intros a v Ha. rewrite Hheap.
    rewrite !lookup_insert_ne by (intros <-; congruence). exact Ha. }
  assert (Hhandle : ∀ f s, well_typed_field w f s = true → well_typed_field w' f s = true).
  { intros f s. unfold well_typed_field. destruct (s ≫= target) as [a|]; [|done].
    destruct (heap w !! a) as [v|] eqn:Ha; [|done]. by rewrite (Hold a v Ha). }
  apply well_typed_spec. intros f.
  destruct f;
    first [ exact (Hhandle _ _ Hcred) | exact (Hhandle _ _ Hhttp)
          | exact (Hhandle _ _ Hout)
          | unfold well_typed_field, get;
            cbn [Endpoint Region DisableSSL LogHTTPBody LogLevel MaxRetries
                 DisableParamValidation DisableComputeChecksums S3ForcePathStyle
                 fmap option_fmap option_map mbind option_bind target];
            rewrite Hheap; rewrite ?lookup_insert_ne by (intuition congruence);
            by rewrite lookup_insert_eq ].
Qed.

(** X10: Each scalar field of the default configuration has a box of its own, made
    by the initialiser: the pointers of any two scalar fields differ, none of
    them was in use before, and neither was the struct's address; every cell
    that existed before keeps its content. *)
Theorem DefaultConfig_boxes_fresh cred http out w :
  ∃ d cfg w',
    DefaultConfig cred http out w = Some (d, w') ∧
    heap w' !! d = Some (CConfig cfg) ∧
    heap w !! d = None ∧
    (∀ f, is_handle f = false →
          ∃ a, get f cfg = Some (RPtr a) ∧ heap w !! a = None ∧ a ≠ d) ∧
    (∀ f g, is_handle f = false → is_handle g = false → f ≠ g →
            get f cfg ≠ get g cfg) ∧
    (∀ a v, heap w !! a = Some v → heap w' !! a = Some v).
Proof.
  destruct (DefaultConfig_layout cred http out w)
    as (e & r & b1 & b2 & l & m & b3 & b4 & b5 & d & w' & Hrun & Hheap & Hnd & Hnew).
  eexists d, _, w'. split; [exact Hrun|].
  split; [rewrite Hheap; apply lookup_insert_eq|].
  nodup_facts Hnd.
  repeat (apply Forall_cons in Hnew as [? Hnew]).
  split; [assumption|]. split; [|split].
  - intros f Hf. destruct f; try discriminate Hf; eexists; (split; [reflexivity|]);
      (split; [assumption|intuition congruence]).
  - intros f g Hf Hg Hfg.
    destruct f; try discriminate Hf; destruct g; try discriminate Hg;
      try (exfalso; apply Hfg; reflexivity);
      intros [= E]; intuition congruence.
  - intros a v Ha. rewrite Hheap.
    rewrite !lookup_insert_ne by (intros <-; congruence). exact Ha.
Qed.

(** ** [Merge] on a well-typed store *)

Lemma well_typed_field_alloc w v f s :
  well_typed_field w f s = true →
  well_typed_field (with_heap (insert (fresh (dom (heap w))) v) w) f s = true.
Proof.
  unfold well_typed_field. destruct (s ≫= target) as [a|]; [|done].
  destruct (heap w !! a) as [x|] eqn:Ha; [|done].
  simpl. by rewrite (lookup_alloc_old _ v a x Ha).
Qed.

Lemma override_typed_inv w newcfg :
  override_typed w newcfg = true →
  override_ok w newcfg = true ∧
  ∀ f, well_typed_field w f (override_field w newcfg f) = true.
Proof.
  destruct newcfg as [p|]; [|done]. unfold override_field. simpl.
  destruct (heap w !! p) as [[]|]; try done. simpl.
  intros H. split; [done|]. by apply well_typed_spec.
Qed.

(** X6: [Merge] keeps the store well typed: when the base and the override are
    well typed, so is the merged configuration, in the state [Merge] leaves;
    each of its fields that is present leads to a cell of the field's type. *)
Theorem Merge_well_typed c newcfg w :
  well_typed w c = true →
  override_typed w newcfg = true →
  ∃ q r w',
    Merge c newcfg w = Some (q, w') ∧
    heap w' !! q = Some (CConfig r) ∧
    well_typed w' r = true ∧
    (∀ f a, get f r ≫= target = Some a →
            ∃ v, heap w' !! a = Some v ∧ cell_fits f v = true).
Proof.
  intros Hc [Hok Hn]%override_typed_inv.
  destruct (Merge_run c newcfg w Hok) as (r & Hrun & Hget).
  eexists _, r, _. split; [exact Hrun|]. split; [apply lookup_alloc_new|].
  assert (Hr : ∀ f, well_typed_field
                      (with_heap (insert (fresh (dom (heap w))) (CConfig r)) w)
                      f (get f r) = true).
  { intros f. apply well_typed_field_alloc. rewrite Hget.
    destruct (override_field w newcfg f) eqn:E; [rewrite <- E; apply Hn|].
    by apply well_typed_spec. }
  split; [by apply well_typed_spec|].
  intros f a Ha. specialize (Hr f). unfold well_typed_field in Hr. rewrite Ha in Hr.
  destruct (heap _ !! a) as [v|]; [by exists v|done].
Qed.

(** ** What the merged configuration shares, and what is its own *)

(** X7: The merged configuration shares what its fields lead to with the base
    and the override: a write through a field of the result is seen through
    the override's field, read from the override's struct, when that field is
    present there, and through the base's field otherwise. *)
Theorem Merge_result_shares_pointees c p n w :
  heap w !! p = Some (CConfig n) →
  ∃ q r w',
    Merge c (Some p) w = Some (q, w') ∧
    heap w' !! q = Some (CConfig r) ∧
    ∀ f a v, get f r ≫= target = Some a → is_Some (heap w !! a) → a ≠ p →
      ∃ w2, write_through r f v w' = Some (tt, w2) ∧
            deref w2 (if get f n is Some _
                      then override_field w2 (Some p) f else get f c) = Some v.
Proof.
  intros Hp. eexists _, _, _. split; [by apply Merge_ptr_run|].
  split; [apply lookup_alloc_new|].
  intros f a v Ha [x Hx] Hne.
  set (q := fresh (dom (heap w))).
  set (w' := with_heap (insert q (CConfig (Merge_assign n c))) w).
  assert (Hx' : heap w' !! a = Some x) by by apply lookup_alloc_old.
  eexists. split.
  { unfold write_through. rewrite Ha. by apply (store_run a v w' x). }
  assert (Hp2 : heap (with_heap (insert a v) w') !! p = Some (CConfig n)).
  { simpl. rewrite lookup_insert_ne by done. by apply lookup_alloc_old. }
  rewrite (override_field_ptr _ p n f Hp2).
  rewrite Merge_assign_get in Ha. unfold deref.
  destruct (get f n); rewrite Ha; simpl; apply lookup_insert_eq.
Qed.

(** X8: The struct [Merge] returns is its own: assigning a field of it changes
    neither the override's struct nor a stored base, and assigning a field of
    the stored base after the call does not change the struct returned. *)
Theorem Merge_struct_is_own c p n b w :
  heap w !! p = Some (CConfig n) →
  heap w !! b = Some (CConfig c) →
  ∃ q r w',
    Merge c (Some p) w = Some (q, w') ∧
    heap w' !! q = Some (CConfig r) ∧
    (∀ set, ∃ w2, assign_field q set w' = Some (tt, w2) ∧
                  heap w2 !! q = Some (CConfig (set r)) ∧
                  heap w2 !! p = Some (CConfig n) ∧
                  heap w2 !! b = Some (CConfig c)) ∧
    (∀ set, ∃ w2, assign_field b set w' = Some (tt, w2) ∧
                  heap w2 !! b = Some (CConfig (set c)) ∧
                  heap w2 !! q = Some (CConfig r)).
Proof.
  intros Hp Hb. eexists _, _, _. split; [by apply Merge_ptr_run|].
  set (q := fresh (dom (heap w))).
  set (r := Merge_assign n c).
  set (w' := with_heap (insert q (CConfig r)) w).
  assert (Hq : heap w' !! q = Some (CConfig r)) by apply lookup_alloc_new.
  assert (Hp' : heap w' !! p = Some (CConfig n)) by by apply lookup_alloc_old.
  assert (Hb' : heap w' !! b = Some (CConfig c)) by by apply lookup_alloc_old.
  assert (Hqp : q ≠ p).
  { intros E. pose proof (fresh_unused (heap w)) as Hf. fold q in Hf. congruence. }
  assert (Hqb : q ≠ b).
  { intros E. pose proof (fresh_unused (heap w)) as Hf. fold q in Hf. congruence. }
  split; [exact Hq|]. split; intros set; eexists; (split;
    [ unfold assign_field;
      first [ rewrite (bind_run _ _ _ _ _ (load_config_run q r w' Hq));
              by apply (store_run q _ w' (CConfig r))
            | rewrite (bind_run _ _ _ _ _ (load_config_run b c w' Hb'));
              by apply (store_run b _ w' (CConfig c)) ] | ]); simpl.
  - split; [apply lookup_insert_eq|].
    split; (rewrite lookup_insert_ne by done); [exact Hp'|exact Hb'].
  - split; [apply lookup_insert_eq|].
    rewrite lookup_insert_ne by done. exact Hq.
Qed.

(** ** The further theorems at work on the second concrete process *)

Lemma Merge_assoc_witness :
  heap world1 !! 10%positive = Some (CConfig override0) ∧
  override_ok world1 (Some 12%positive) = true ∧
  ∃ qa ra wa qb rb wb,
    Merge_then base0 (Some 10%positive) (Some 12%positive) world1 = Some (qa, wa) ∧
    heap wa !! qa = Some (CConfig ra) ∧
    Merge_into base0 10%positive (Some 12%positive) world1 = Some (qb, wb) ∧
    heap wb !! qb = Some (CConfig rb) ∧
    ra = rb.
Proof.
  split; [reflexivity|]. split; [reflexivity|].
  exact (Merge_assoc base0 10%positive override0 (Some 12%positive) world1
           eq_refl eq_refl).
Defined.

Lemma Merge_zero_unit_witness :
  heap world1 !! 13%positive = Some (CConfig Config_zero) ∧
  heap world1 !! 10%positive = Some (CConfig override0) ∧
  (∃ q w', Merge base0 (Some 13%positive) world1 = Some (q, w') ∧
           heap w' !! q = Some (CConfig base0)) ∧
  (∃ q w', Merge Config_zero (Some 10%positive) world1 = Some (q, w') ∧
           heap w' !! q = Some (CConfig override0)).
Proof.
  split; [reflexivity|]. split; [reflexivity|].
  exact (Merge_zero_unit base0 13%positive 10%positive override0 world1
           eq_refl eq_refl).
Defined.

Lemma Merge_returns_base_iff_witness :
  heap world1 !! 10%positive = Some (CConfig override0) ∧
  ∃ q r w',
    Merge base0 (Some 10%positive) world1 = Some (q, w') ∧
    heap w' !! q = Some (CConfig r) ∧
    r ≠ base0.
Proof.
  split; [reflexivity|].
  destruct (Merge_returns_base_iff base0 10%positive override0 world1 eq_refl)
    as (q & r & w' & Hrun & Hq & Hiff).
  exists q, r, w'. split; [exact Hrun|]. split; [exact Hq|].
  intros Heq. destruct (proj1 Hiff Heq FMaxRetries) as [H|H]; discriminate H.
Defined.

Lemma Merge_keeps_presence_witness :
  override_ok world1 (Some 12%positive) = true ∧
  ∃ q r w',
    Merge base0 (Some 12%positive) world1 = Some (q, w') ∧
    heap w' !! q = Some (CConfig r) ∧
    is_Some (get FDisableSSL r) ∧ is_Some (get FLogHTTPBody r).
Proof.
  split; [reflexivity|].
  destruct (Merge_keeps_presence base0 (Some 12%positive) world1 eq_refl)
    as (q & r & w' & Hrun & Hq & Hpres & _).
  exists q, r, w'. split; [exact Hrun|]. split; [exact Hq|].
  split; apply Hpres; [left|right]; by eexists.
Defined.

Lemma Merge_disjoint_commute_witness :
  heap world1 !! 10%positive = Some (CConfig override0) ∧
  heap world1 !! 12%positive = Some (CConfig override1) ∧
  disjoint_fields override0 override1 = true ∧
  ∃ qa ra wa qb rb wb,
    Merge_then base0 (Some 10%positive) (Some 12%positive) world1 = Some (qa, wa) ∧
    heap wa !! qa = Some (CConfig ra) ∧
    Merge_then base0 (Some 12%positive) (Some 10%positive) world1 = Some (qb, wb) ∧
    heap wb !! qb = Some (CConfig rb) ∧
    ra = rb.
Proof.
  split; [reflexivity|]. split; [reflexivity|]. split; [reflexivity|].
  exact (Merge_disjoint_commute base0 10%positive override0 12%positive override1
           world1 eq_refl eq_refl eq_refl).
Defined.

Lemma DefaultConfig_well_typed_witness :
  well_typed_field world1 FCredentials (RPtr <$> Some 1%positive) = true ∧
  well_typed_field world1 FHTTPClient (RPtr <$> None) = true ∧
  well_typed_field world1 FLogger
    (Some (RIface (Iface "*os.File" (Some 5%positive)))) = true ∧
  ∃ d cfg w',
    DefaultConfig (Some 1%positive) None (Some 5%positive) world1 = Some (d, w') ∧
    heap w' !! d = Some (CConfig cfg) ∧
    populated cfg = true ∧
    well_typed w' cfg = true.
Proof.
  split; [reflexivity|]. split; [reflexivity|]. split; [reflexivity|].
  exact (DefaultConfig_well_typed (Some 1%positive) None (Some 5%positive) world1
           eq_refl eq_refl eq_refl).
Defined.

Lemma Merge_well_typed_witness :
  well_typed world1 base0 = true ∧
  override_typed world1 (Some 10%positive) = true ∧
  ∃ q r w',
    Merge base0 (Some 10%positive) world1 = Some (q, w') ∧
    heap w' !! q = Some (CConfig r) ∧
    well_typed w' r = true.
Proof.
  split; [reflexivity|]. split; [reflexivity|].
  destruct (Merge_well_typed base0 (Some 10%positive) world1 eq_refl eq_refl)
    as (q & r & w' & Hrun & Hq & Hwt & _).
  exists q, r, w'. split; [exact Hrun|]. split; [exact Hq|exact Hwt].
Defined.

Lemma Merge_result_shares_pointees_witness :
  heap world1 !! 10%positive = Some (CConfig override0) ∧
  ∃ q r w',
    Merge base0 (Some 10%positive) world1 = Some (q, w') ∧
    heap w' !! q = Some (CConfig r).
Proof.
  split; [reflexivity|].
  destruct (Merge_result_shares_pointees base0 10%positive override0 world1 eq_refl)
    as (q & r & w' & Hrun & Hq & _).
  exists q, r, w'. split; [exact Hrun|exact Hq].
Defined.

Lemma Merge_struct_is_own_witness :
  heap world1 !! 10%positive = Some (CConfig override0) ∧
  heap world1 !! 11%positive = Some (CConfig base0) ∧
  ∃ q r w',
    Merge base0 (Some 10%positive) world1 = Some (q, w') ∧
    heap w' !! q = Some (CConfig r) ∧
    ∃ w2, assign_field q (set_Region None) w' = Some (tt, w2) ∧
          heap w2 !! q = Some (CConfig (set_Region None r)) ∧
          heap w2 !! 10%positive = Some (CConfig override0) ∧
          heap w2 !! 11%positive = Some (CConfig base0).
Proof.
  split; [reflexivity|]. split; [reflexivity|].
  destruct (Merge_struct_is_own base0 10%positive override0 11%positive world1
              eq_refl eq_refl) as (q & r & w' & Hrun & Hq & Hown & _).
  exists q, r, w'. split; [exact Hrun|]. split; [exact Hq|].
  exact (Hown (set_Region None)).
Defined.
